(** * riak-nodejs-client: the FetchValue and ListBuckets commands

    A shallow embedding of [lib/commands/kv/fetchvalue.js] and of the
    ListBuckets command ([lib/commands/kv/listbuckets.js]), with the
    properties of the command contract they implement: the outgoing frame,
    the expected response code, the classification of response frames and
    the calls made to the completion callback.

    JavaScript values are typed here: a Buffer is a list of octets, a JS
    string is a [string], an optional protobuf field or a property that may
    be absent is an [option].  A method that may throw returns a [Result];
    a call of the user's callback is recorded in a log of calls. *)

From Stdlib Require Import Ascii String.
From coqutil Require Import Z.bitblast.
From stdpp Require Import base option list strings numbers.

Open Scope Z_scope.

(** ** The JavaScript runtime the commands rely on *)

Module Js.

Inductive JsError :=
| ReferenceError (identifier : string)
| TypeError (message : string)
| RangeError (message : string)
| ValidationError (message : string)
| ListError.

Inductive Result (A : Type) :=
| Ok (a : A)
| Throw (e : JsError).

Arguments Ok {A} a.
Arguments Throw {A} e.

#[global] Instance Result_ret : MRet Result := @Ok.

#[global] Instance Result_bind : MBind Result := fun A B f m =>
  match m with
  | Ok a => f a
  | Throw e => Throw e
  end.

(** A function value, known by its identity only. *)
Inductive JsFunction := FunctionRef (id : nat).

(** JS truthiness of a nullable boolean ([null] is falsy). *)
Definition truthy (v : option bool) : bool :=
  match v with
  | Some b => b
  | None => false
  end.

(** A Buffer: its octets, each in 0..255. *)
Definition Buffer := list Z.

(** [new Buffer(size)]: [size] octets of whatever the allocator hands out
    ([garbage]); Node does not clear them. *)
Definition Buffer_alloc (size : nat) (garbage : Buffer) : Buffer :=
  take size (garbage ++ replicate size 0).

(** The checks Node makes before an integer write: the value against
    its range first, then the offset against the buffer; either failure
    is a RangeError (Node before version 10 raised a TypeError for the
    value). *)
Definition checkInt (buf : Buffer) (value : Z) (offset ext : nat) (max min : Z)
  : Result unit :=
  if bool_decide (max < value ∨ value < min)
  then Throw (RangeError "value is out of range")
  else if bool_decide (length buf < offset + ext)%nat
  then Throw (RangeError "offset is out of range")
  else Ok ().

(** Storing a number in an octet keeps its low 8 bits. *)
Definition octet (v : Z) : Z := Z.land v 255.

(** [buf.writeUInt8(value, offset)] *)
Definition writeUInt8 (buf : Buffer) (value : Z) (offset : nat) : Result Buffer :=
  _ ← checkInt buf value offset 1 255 0;
  Ok (<[offset := octet value]> buf).

(** [buf.writeInt32BE(value, offset)]: the most significant octet first;
    [>>>] works on the value taken modulo 2^32. *)
Definition writeInt32BE (buf : Buffer) (value : Z) (offset : nat) : Result Buffer :=
  _ ← checkInt buf value offset 4 2147483647 (-2147483648);
  let u := value `mod` 2 ^ 32 in
  Ok (<[(offset + 3)%nat := octet u]>
      (<[(offset + 2)%nat := octet (Z.shiftr u 8)]>
       (<[(offset + 1)%nat := octet (Z.shiftr u 16)]>
        (<[offset := octet (Z.shiftr u 24)]> buf)))).

(** [buf.readUInt8(offset)], for an offset inside the buffer. *)
Definition readUInt8 (buf : Buffer) (offset : nat) : Z :=
  default 0 (buf !! offset).

(** [buf.readUInt32BE(offset)], for an offset inside the buffer. *)
Definition readUInt32BE (buf : Buffer) (offset : nat) : Z :=
  Z.lor (Z.shiftl (readUInt8 buf offset) 24)
   (Z.lor (Z.shiftl (readUInt8 buf (offset + 1)) 16)
     (Z.lor (Z.shiftl (readUInt8 buf (offset + 2)) 8)
            (readUInt8 buf (offset + 3)))).

End Js.

Import Js.

(** ** The part of Joi the schemas use *)

Module Joi.

Inductive Type_ := TString | TNumber | TBoolean | TBinary | TFunc.

Inductive DefaultValue := DString (s : string) | DBool (b : bool) | DNull.

Inductive Presence := Required | Optional | Default (d : DefaultValue).

Record Rule := { rule_type : Type_; rule_presence : Presence }.

Definition Schema := list (string * Rule).

(** The type constructors of Joi that the schemas call, by name;
    [numer] is no property of Joi. *)
Definition type_method (name : string) : option Type_ :=
  if bool_decide (name = "string") then Some TString
  else if bool_decide (name = "number") then Some TNumber
  else if bool_decide (name = "boolean") then Some TBoolean
  else if bool_decide (name = "binary") then Some TBinary
  else if bool_decide (name = "func") then Some TFunc
  else None.

(** One property of a schema literal as the source writes it:
    [receiver.method().presence], e.g. [Joi.string().required()]. *)
Record KeyExpr := {
  receiver : string;
  method : string;
  presence : Presence
}.

(** Reading an identifier: a ReferenceError unless it is bound in scope. *)
Definition resolve (scope : list string) (identifier : string) : Result unit :=
  if bool_decide (identifier ∈ scope) then Ok ()
  else Throw (ReferenceError identifier).

(** What a bound name denotes, as far as a schema literal looks at it:
    the type constructors the object offers, by property name; a
    property it does not have is undefined ([None]). *)
Definition Object := string → option Type_.

(** The Joi library itself. *)
Definition library : Object := type_method.

(** An object with none of these properties. *)
Definition no_methods : Object := fun _ => None.

(** [receiver.method()]: the receiver is read in [scope], the method is
    looked up on the object the receiver denotes ([value_of]); calling a
    property that is undefined is a TypeError. *)
Definition eval_key (scope : list string) (value_of : string → Object)
  (e : KeyExpr) : Result Rule :=
  _ ← resolve scope (receiver e);
  match value_of (receiver e) (method e) with
  | Some t => Ok {| rule_type := t; rule_presence := presence e |}
  | None => Throw (TypeError (method e +:+ " is not a function"))
  end.

(** The properties of an object literal are evaluated in source order. *)
Fixpoint eval_keys (scope : list string) (value_of : string → Object)
  (keys : list (string * KeyExpr)) : Result Schema :=
  match keys with
  | [] => Ok []
  | (k, e) :: rest =>
      r ← eval_key scope value_of e;
      s ← eval_keys scope value_of rest;
      Ok ((k, r) :: s)
  end.

(** [Joi.object().keys({ ... })]: the callee first, then the argument. *)
Definition object_keys (scope : list string) (value_of : string → Object)
  (keys : list (string * KeyExpr)) : Result Schema :=
  _ ← resolve scope "Joi";
  eval_keys scope value_of keys.

End Joi.

(** ** lib/commands/kv/fetchvalue.js *)

Module Fetchvalue.

(** The RpbGetReq message, with the fields the command sets; an optional
    field that was not set, or was set to [null], is [None]. *)
Record RpbGetReq := {
  pb_bucket : option Buffer;
  pb_type : option Buffer;
  pb_key : option Buffer;
  pb_r : option Z;
  pb_pr : option Z;
  pb_notfound_ok : option bool;
  pb_basic_quorum : option bool;
  pb_deletedvclock : option bool;
  pb_head : option bool;
  pb_if_modified : option Buffer;
  pb_timeout : option Z
}.

(** The options object Joi hands to the validation callback.  A property
    tested with [hasOwnProperty] is an [option]; [ifNotModified] and
    [timeout] may be present and [null]. *)
Record Options := {
  opt_bucket : string;
  opt_bucketType : string;
  opt_key : string;
  opt_r : option Z;
  opt_pr : option Z;
  opt_notFoundOk : option bool;
  opt_useBasicQuorum : option bool;
  opt_returnDeletedVClock : option bool;
  opt_headOnly : option bool;
  opt_ifNotModified : option (option Buffer);
  opt_timeout : option (option Z);
  opt_callback : JsFunction
}.

(** A value assigned to a property of a RiakMeta object. *)
Inductive PropValue := PBool (b : bool) | PString (s : string).

(** What the file requires from other modules: [../../protobuf/riakprotobuf]
    (message codes and the protobuf encoder, the decoded RpbContent),
    [./riakmeta], [joi] and Node's Buffer/string conversions. *)
Class Requires := {
  getCodeFor : string → Z;
  RpbGetReq_encode : RpbGetReq → Buffer;
  RpbContent : Type;
  RpbContent_getValue : RpbContent → Buffer;
  RiakMeta : Type;
  RiakMeta_new : RiakMeta;
  RiakMeta_assign : string → PropValue → RiakMeta → RiakMeta;
  extractMetaFromRpbContent :
    RpbContent → Buffer → string → string → string → RiakMeta;
  RawOptions : Type;
  Joi_validate : RawOptions → Joi.Schema → Result Options;
  Buffer_from_string : string → Buffer;
  Buffer_toString_utf8 : Buffer → string
}.

(** The identifiers bound in the module's scope: the module wrapper's
    parameters, the globals the file uses, and its own [var]s and
    functions (hoisted). *)
Definition module_scope : list string :=
  [ "require"; "module"; "exports"; "Buffer"; "Array";
    "RpbGetReq"; "requestCode"; "expectedCode"; "RiakMeta";
    "KvResponseBase"; "inherits"; "Joi";
    "FetchValue"; "schema"; "Builder"; "Response" ].

(** The object literal of [var schema = Joi.object().keys({ ... })], as
    written. *)
Definition schema_keys : list (string * Joi.KeyExpr) :=
  [ ("bucket", Joi.Build_KeyExpr "joi" "string" Joi.Required);
    ("bucketType", Joi.Build_KeyExpr "joi" "string"
                     (Joi.Default (Joi.DString "default")));
    ("key", Joi.Build_KeyExpr "joi" "string" Joi.Required);
    ("r", Joi.Build_KeyExpr "joi" "number" Joi.Optional);
    ("pr", Joi.Build_KeyExpr "joi" "numer" Joi.Optional);
    ("notFoundOk", Joi.Build_KeyExpr "joi" "boolean" Joi.Optional);
    ("useBasicQuorum", Joi.Build_KeyExpr "joi" "boolean" Joi.Optional);
    ("returnDeletedVClock", Joi.Build_KeyExpr "joi" "boolean"
                              (Joi.Default (Joi.DBool false)));
    ("headOnly", Joi.Build_KeyExpr "joi" "boolean"
                   (Joi.Default (Joi.DBool false)));
    ("ifNotModified", Joi.Build_KeyExpr "joi" "binary" (Joi.Default Joi.DNull));
    ("timeout", Joi.Build_KeyExpr "joi" "number" (Joi.Default Joi.DNull));
    ("callback", Joi.Build_KeyExpr "joi" "func" Joi.Required) ].

(** What the names of the module's scope denote: [Joi] is the Joi
    library ([require('joi')]); nothing else in scope offers its
    methods. *)
Definition module_values (name : string) : Joi.Object :=
  if bool_decide (name = "Joi") then Joi.library else Joi.no_methods.

(** [var schema = ...], evaluated when the module is loaded. *)
Definition schema : Result Joi.Schema :=
  Joi.object_keys module_scope module_values schema_keys.

Section Command.
Context `{R : Requires}.

Definition requestCode : Z := getCodeFor "RpbGetReq".
Definition expectedCode : Z := getCodeFor "RpbGetResp".

(** The decoded RpbGetResp, as [onSuccess] reads it: [getContent()] is an
    array (a repeated field); [getVclock()] is a byte buffer, or [null]
    ([None]) when the reply does not carry the optional vclock, as in
    Riak's reply that the object is unchanged. *)
Record RpbGetResp := {
  getContent : list RpbContent;
  getVclock : option Buffer
}.

(** The decoded RpbErrorResp: [getErrmsg()] is a byte buffer. *)
Record RpbErrorResp := {
  getErrmsg : Buffer;
  getErrcode : Z
}.

(** A [{ value: ..., meta: ... }] pair. *)
Record RiakObject := {
  value : Buffer;
  meta : RiakMeta
}.

(** Modelled from the spec: KvResponseBase ([./kvresponsebase]) is not
    among the sources, and the spec does not describe it.  It is taken to
    keep the array it is given, which the documentation of [Response]
    calls the "array of value/meta pairs from Riak", as the response's
    values. *)
Definition KvResponseBase (rawResponse : list RiakObject) : list RiakObject :=
  rawResponse.

Record ResponseObject := {
  values : list RiakObject;
  notFound : bool;
  unchanged : bool
}.

(** [new Response(notFound, unchanged, rawResponse)] *)
Definition Response (notFound unchanged : bool) (rawResponse : list RiakObject)
  : ResponseObject :=
  {| values := KvResponseBase rawResponse;
     notFound := notFound;
     unchanged := unchanged |}.

Definition isNotFound (r : ResponseObject) : bool := notFound r.
Definition isUnchanged (r : ResponseObject) : bool := unchanged r.

(** An argument passed to the callback. *)
Inductive Arg :=
| ANull
| ABool (b : bool)
| AString (s : string)
| AResponse (r : ResponseObject)
| AArray (a : list RiakObject).

(** One call of a function, with its arguments in order. *)
Record Call := {
  callee : JsFunction;
  arguments : list Arg
}.

(** The command object ([this]). *)
Record FetchValueObject := {
  protobuf : RpbGetReq;
  callback : JsFunction;
  bucket : string;
  key : string;
  bucketType : string;
  streaming : bool;
  header : Buffer;
  remainingTries : Z
}.

(** [function FetchValue(options)], called with [new]; [schema] is the
    module's variable and [garbage] the memory [new Buffer(5)] returns. *)
Definition FetchValue (schema : Joi.Schema) (options : RawOptions)
  (garbage : Buffer) : Result FetchValueObject :=
  o ← Joi_validate options schema;
  let pb :=
    {| pb_bucket := Some (Buffer_from_string (opt_bucket o));
       pb_type := Some (Buffer_from_string (opt_bucketType o));
       pb_key := Some (Buffer_from_string (opt_key o));
       pb_r := opt_r o;
       pb_pr := opt_pr o;
       pb_notfound_ok := opt_notFoundOk o;
       pb_basic_quorum := opt_useBasicQuorum o;
       pb_deletedvclock := opt_returnDeletedVClock o;
       pb_head := opt_headOnly o;
       pb_if_modified := mjoin (opt_ifNotModified o);
       pb_timeout := mjoin (opt_timeout o) |} in
  h ← writeUInt8 (Buffer_alloc 5 garbage) requestCode 4;
  Ok {| protobuf := pb;
        callback := opt_callback o;
        bucket := opt_bucket o;
        key := opt_key o;
        bucketType := opt_bucketType o;
        streaming := false;
        header := h;
        remainingTries := 1 |}.

(** The object [getRiakMessage] returns. *)
Record RiakMessage := {
  msg_protobuf : Buffer;
  msg_header : Buffer
}.

Definition set_header (this : FetchValueObject) (h : Buffer) : FetchValueObject :=
  {| protobuf := protobuf this;
     callback := callback this;
     bucket := bucket this;
     key := key this;
     bucketType := bucketType this;
     streaming := streaming this;
     header := h;
     remainingTries := remainingTries this |}.

(** [getRiakMessage]: writes the length into [this.header] and returns
    that same buffer with the encoded protobuf. *)
Definition getRiakMessage (this : FetchValueObject)
  : Result (RiakMessage * FetchValueObject) :=
  let encoded := RpbGetReq_encode (protobuf this) in
  h ← writeInt32BE (header this) (Z.of_nat (length encoded) + 1) 0;
  Ok ({| msg_protobuf := encoded; msg_header := h |}, set_header this h).

Definition getExpectedResponseCode (this : FetchValueObject) : Z :=
  expectedCode.

(** [this.callback(args...)]: the call is appended to the log. *)
Definition call_callback (this : FetchValueObject) (args : list Arg)
  (log : list Call) : list Call :=
  log ++ [{| callee := callback this; arguments := args |}].

(** The meta of the object standing for a lone tombstone. *)
Definition tombstone_meta (this : FetchValueObject) : RiakMeta :=
  RiakMeta_assign "bucketType" (PString (bucketType this))
    (RiakMeta_assign "bucket" (PString (bucket this))
      (RiakMeta_assign "key" (PString (key this))
        (RiakMeta_assign "isTombstone" (PBool true) RiakMeta_new))).

(** The body of the [for] loop of [onSuccess]. *)
Definition content_value (this : FetchValueObject) (vclock : Buffer)
  (c : RpbContent) : RiakObject :=
  {| value := RpbContent_getValue c;
     meta := extractMetaFromRpbContent c vclock
               (bucketType this) (bucket this) (key this) |}.

(** [onSuccess(rpbGetResp)]; a [null] response is [None].  The result is
    what the call returns or throws, with the log as the call leaves it.
    [rpbGetResp.getVclock().toBuffer()] comes before any call of the
    callback, and throws a TypeError when [getVclock()] is [null]. *)
Definition onSuccess (this : FetchValueObject) (rpbGetResp : option RpbGetResp)
  (log : list Call) : Result bool * list Call :=
  match rpbGetResp with
  | None =>
      (Ok true,
       call_callback this [ANull; AResponse (Response true false [])] log)
  | Some resp =>
      let pbContentArray := getContent resp in
      match getVclock resp with
      | None =>
          (Throw (TypeError "Cannot read properties of null (reading 'toBuffer')"),
           log)
      | Some vclock =>
          if bool_decide (length pbContentArray = 0%nat) then
            let riakMeta := tombstone_meta this in
            let riakValue := Buffer_alloc 0 [] in
            (Ok true,
             call_callback this
               [ABool false; ABool false;
                AArray [{| value := riakValue; meta := riakMeta |}]] log)
          else
            let values := content_value this vclock <$> pbContentArray in
            (Ok true,
             call_callback this
               [ANull; AResponse (Response false false values)] log)
      end
  end.

(** [onError(msg)] *)
Definition onError (this : FetchValueObject) (msg : string) (log : list Call)
  : list Call :=
  call_callback this [AString msg; ANull] log.

(** [onRiakError(rpbErrorResp)] *)
Definition onRiakError (this : FetchValueObject) (rpbErrorResp : RpbErrorResp)
  (log : list Call) : list Call :=
  onError this (Buffer_toString_utf8 (getErrmsg rpbErrorResp)) log.

(** What [require] of the module yields: [module.exports], the
    constructor closed over the module's [schema].  The statements of the
    module run in order; the exports are assigned last. *)
Definition module_exports : Result (RawOptions → Buffer → Result FetchValueObject) :=
  s ← schema;
  Ok (FetchValue s).

(** [new (require('.../fetchvalue'))(options)] *)
Definition construct (options : RawOptions) (garbage : Buffer)
  : Result FetchValueObject :=
  ctor ← module_exports;
  ctor options garbage.

End Command.

End Fetchvalue.

(** ** lib/commands/kv/listbuckets.js *)

Module Listbuckets.

(** The validated options ([this.options]), every default filled in. *)
Record Options := {
  allowListing : bool;
  opt_bucketType : string;
  stream : bool;
  timeout : option Z
}.

(** What the file requires from other modules: the options validation of
    [../commandbase] (it runs Joi on the options and either throws or
    leaves the validated options in [this.options]) and Node's
    Buffer/string conversions. *)
Class Requires := {
  RawOptions : Type;
  validateOptions : RawOptions → Joi.Schema → Result Options;
  Buffer_from_string : string → Buffer;
  Buffer_toString_utf8 : Buffer → string
}.

(** [var schema = Joi.object().keys({ ... })] *)
Definition schema : Joi.Schema :=
  [ ("allowListing",
     {| Joi.rule_type := Joi.TBoolean;
        Joi.rule_presence := Joi.Default (Joi.DBool false) |});
    ("bucketType",
     {| Joi.rule_type := Joi.TString;
        Joi.rule_presence := Joi.Default (Joi.DString "default") |});
    ("stream",
     {| Joi.rule_type := Joi.TBoolean;
        Joi.rule_presence := Joi.Default (Joi.DBool true) |});
    ("timeout",
     {| Joi.rule_type := Joi.TNumber;
        Joi.rule_presence := Joi.Default Joi.DNull |}) ].

(** The RpbListBucketsReq message the command fills in. *)
Record RpbListBucketsReq := {
  req_type : option Buffer;
  req_timeout : option Z;
  req_stream : option bool
}.

(** The decoded RpbListBucketsResp: [buckets] is a repeated bytes field,
    [done] an optional boolean ([null] when the frame does not carry it). *)
Record RpbListBucketsResp := {
  resp_buckets : list Buffer;
  resp_done : option bool
}.

(** An argument passed to the callback: [null], or the response object
    [{ buckets: ..., done: ... }]. *)
Inductive Arg :=
| ANull
| AResponse (buckets : list string) (done : option bool).

Record Call := {
  callee : JsFunction;
  arguments : list Arg
}.

(** Modelled from the spec: CommandBase ([../commandbase]) is not among
    the sources; a command holds "a result sink (completion handler) to be
    invoked with the decoded result or an error", here the callback given
    to the constructor, with the names of its request and response
    messages. *)
Record CommandBaseObject := {
  pbRequestName : string;
  pbResponseName : string;
  callback : JsFunction
}.

Definition CommandBase (pbRequestName pbResponseName : string)
  (callback : JsFunction) : CommandBaseObject :=
  {| pbRequestName := pbRequestName;
     pbResponseName := pbResponseName;
     callback := callback |}.

(** Modelled from the spec: [_callback] of CommandBase, not among the
    sources, hands its arguments to the completion handler; the call is
    appended to the log. *)
Definition _callback (base : CommandBaseObject) (args : list Arg)
  (log : list Call) : list Call :=
  log ++ [{| callee := callback base; arguments := args |}].

(** The command object ([this]); [buckets] is undefined ([None]) unless
    the constructor created it. *)
Record ListBucketsObject := {
  base : CommandBaseObject;
  options : Options;
  buckets : option (list string)
}.

Section Command.
Context `{R : Requires}.

(** [function ListBuckets(options, callback)], called with [new]. *)
Definition ListBuckets (raw : RawOptions) (callback : JsFunction)
  : Result ListBucketsObject :=
  let b := CommandBase "RpbListBucketsReq" "RpbListBucketsResp" callback in
  o ← validateOptions raw schema;
  let bs := if negb (stream o) then Some [] else None in
  if negb (allowListing o) then Throw ListError
  else Ok {| base := b; options := o; buckets := bs |}.

(** [constructPbRequest] *)
Definition constructPbRequest (this : ListBucketsObject) : RpbListBucketsReq :=
  {| req_type := Some (Buffer_from_string (opt_bucketType (options this)));
     req_timeout := timeout (options this);
     req_stream := Some true |}.

Definition set_buckets (this : ListBucketsObject) (bs : list string)
  : ListBucketsObject :=
  {| base := base this; options := options this; buckets := Some bs |}.

(** [onSuccess(rpbListBucketsResp)]: returns [rpbListBucketsResp.done].
    In accumulate mode the callback is handed [this.buckets] itself. *)
Definition onSuccess (this : ListBucketsObject) (resp : RpbListBucketsResp)
  (log : list Call) : Result (option bool * ListBucketsObject * list Call) :=
  let bucketsToSend := Buffer_toString_utf8 <$> resp_buckets resp in
  if stream (options this) then
    Ok (resp_done resp, this,
        _callback (base this) [ANull; AResponse bucketsToSend (resp_done resp)] log)
  else
    match buckets this with
    | None =>
        Throw (TypeError "Array.prototype.push called on null or undefined")
    | Some bs =>
        let this' := set_buckets this (bs ++ bucketsToSend) in
        if truthy (resp_done resp) then
          Ok (resp_done resp, this',
              _callback (base this)
                [ANull; AResponse (bs ++ bucketsToSend) (resp_done resp)] log)
        else Ok (resp_done resp, this', log)
    end.

(** The response frames of one exchange, handed to [onSuccess] in
    arrival order. *)
Fixpoint onSuccess_frames (this : ListBucketsObject)
  (frames : list RpbListBucketsResp) (log : list Call)
  : Result (ListBucketsObject * list Call) :=
  match frames with
  | [] => Ok (this, log)
  | f :: rest =>
      '(_, this', log') ← onSuccess this f log;
      onSuccess_frames this' rest log'
  end.

(** The names one frame carries. *)
Definition frame_names (resp : RpbListBucketsResp) : list string :=
  Buffer_toString_utf8 <$> resp_buckets resp.

(** All the bucket names of a sequence of frames, in arrival order. *)
Definition bucket_names (frames : list RpbListBucketsResp) : list string :=
  concat (frame_names <$> frames).

(** In accumulate mode the constructor has created [this.buckets]. *)
Definition has_buckets (this : ListBucketsObject) : Prop :=
  stream (options this) = false → is_Some (buckets this).

(** The call [onSuccess] makes for a frame in stream mode:
    [this._callback(null, { buckets: bucketsToSend, done: ... })]. *)
Definition frame_call (this : ListBucketsObject) (resp : RpbListBucketsResp)
  : Call :=
  {| callee := callback (base this);
     arguments := [ANull; AResponse (frame_names resp) (resp_done resp)] |}.

(** The bucket names a call hands to the callback. *)
Definition arg_buckets (a : Arg) : list string :=
  match a with
  | ANull => []
  | AResponse bs _ => bs
  end.

Definition call_buckets (c : Call) : list string :=
  concat (arg_buckets <$> arguments c).

(** The call accumulate mode makes on the frame at index [k] of
    [frames], if that frame says [done]: the names held before ([bs])
    followed by the names of the frames up to and including that one,
    with that frame's [done]. *)
Definition done_call (this : ListBucketsObject) (bs : list string)
  (frames : list RpbListBucketsResp) (k : nat) (f : RpbListBucketsResp)
  : option Call :=
  if truthy (resp_done f)
  then Some {| callee := callback (base this);
               arguments :=
                 [ANull;
                  AResponse (bs ++ bucket_names (take (S k) frames))
                    (resp_done f)] |}
  else None.

(** One such call for every frame that says [done], in frame order. *)
Definition done_calls (this : ListBucketsObject) (bs : list string)
  (frames : list RpbListBucketsResp) : list Call :=
  omap id (imap (done_call this bs frames) frames).

End Command.

End Listbuckets.

(** ** A concrete environment

    Instances of the required modules on which the commands can be run:
    ASCII text for the string conversions, the Riak message codes, options
    that are already validated, a content that is its value. *)

Module Sample.

Definition ascii_bytes (s : string) : Buffer :=
  (fun a => Z.of_nat (Ascii.nat_of_ascii a)) <$> String.list_ascii_of_string s.

Definition ascii_text (b : Buffer) : string :=
  String.string_of_list_ascii ((fun z => Ascii.ascii_of_nat (Z.to_nat z)) <$> b).

Definition riak_code (name : string) : Z :=
  if bool_decide (name = "RpbErrorResp") then 0
  else if bool_decide (name = "RpbGetReq") then 9
  else if bool_decide (name = "RpbGetResp") then 10
  else if bool_decide (name = "RpbListBucketsReq") then 15
  else if bool_decide (name = "RpbListBucketsResp") then 16
  else 255.

(** Length-prefixed bucket, type and key: enough of an encoder to have a
    payload to frame. *)
Definition encode_fields (pb : Fetchvalue.RpbGetReq) : Buffer :=
  let field (o : option Buffer) :=
    match o with
    | Some b => Z.of_nat (length b) :: b
    | None => []
    end in
  field (Fetchvalue.pb_bucket pb) ++ field (Fetchvalue.pb_type pb)
    ++ field (Fetchvalue.pb_key pb).

Definition meta_object := list (string * Fetchvalue.PropValue).

#[export] Instance fetchvalue_requires : Fetchvalue.Requires := {|
  Fetchvalue.getCodeFor := riak_code;
  Fetchvalue.RpbGetReq_encode := encode_fields;
  Fetchvalue.RpbContent := Buffer;
  Fetchvalue.RpbContent_getValue := fun c => c;
  Fetchvalue.RiakMeta := meta_object;
  Fetchvalue.RiakMeta_new := [];
  Fetchvalue.RiakMeta_assign := fun k v m => (k, v) :: m;
  Fetchvalue.extractMetaFromRpbContent := fun _ _ bucketType bucket key =>
    [ ("bucketType", Fetchvalue.PString bucketType);
      ("bucket", Fetchvalue.PString bucket);
      ("key", Fetchvalue.PString key) ];
  Fetchvalue.RawOptions := Fetchvalue.Options;
  Fetchvalue.Joi_validate := fun o _ => Ok o;
  Fetchvalue.Buffer_from_string := ascii_bytes;
  Fetchvalue.Buffer_toString_utf8 := ascii_text
|}.

Definition fetch_options : Fetchvalue.Options :=
  {| Fetchvalue.opt_bucket := "b";
     Fetchvalue.opt_bucketType := "default";
     Fetchvalue.opt_key := "k";
     Fetchvalue.opt_r := None;
     Fetchvalue.opt_pr := None;
     Fetchvalue.opt_notFoundOk := None;
     Fetchvalue.opt_useBasicQuorum := None;
     Fetchvalue.opt_returnDeletedVClock := Some false;
     Fetchvalue.opt_headOnly := Some false;
     Fetchvalue.opt_ifNotModified := Some None;
     Fetchvalue.opt_timeout := Some None;
     Fetchvalue.opt_callback := FunctionRef 1 |}.

(** The command [new FetchValue(fetch_options)] builds, given a schema,
    in memory that held [7; 7; 7; 7; 7]. *)
Definition fetch_command : Fetchvalue.FetchValueObject :=
  {| Fetchvalue.protobuf :=
       {| Fetchvalue.pb_bucket := Some [98];
          Fetchvalue.pb_type := Some [100; 101; 102; 97; 117; 108; 116];
          Fetchvalue.pb_key := Some [107];
          Fetchvalue.pb_r := None;
          Fetchvalue.pb_pr := None;
          Fetchvalue.pb_notfound_ok := None;
          Fetchvalue.pb_basic_quorum := None;
          Fetchvalue.pb_deletedvclock := Some false;
          Fetchvalue.pb_head := Some false;
          Fetchvalue.pb_if_modified := None;
          Fetchvalue.pb_timeout := None |};
     Fetchvalue.callback := FunctionRef 1;
     Fetchvalue.bucket := "b";
     Fetchvalue.key := "k";
     Fetchvalue.bucketType := "default";
     Fetchvalue.streaming := false;
     Fetchvalue.header := [7; 7; 7; 7; 9];
     Fetchvalue.remainingTries := 1 |}.

(** Options as a caller writes them: any property may be left out. *)
Record list_options := {
  lo_allowListing : option bool;
  lo_bucketType : option string;
  lo_stream : option bool;
  lo_timeout : option Z
}.

Definition default_bool (s : Joi.Schema) (k : string) (fallback : bool) : bool :=
  match snd <$> list_find (fun kr => bool_decide (fst kr = k)) s with
  | Some (_, {| Joi.rule_presence := Joi.Default (Joi.DBool b) |}) => b
  | _ => fallback
  end.

Definition default_string (s : Joi.Schema) (k : string) (fallback : string)
  : string :=
  match snd <$> list_find (fun kr => bool_decide (fst kr = k)) s with
  | Some (_, {| Joi.rule_presence := Joi.Default (Joi.DString d) |}) => d
  | _ => fallback
  end.

(** Validation of well-typed options: the schema's defaults fill in what
    was left out. *)
Definition fill_defaults (raw : list_options) (s : Joi.Schema)
  : Result Listbuckets.Options :=
  Ok {| Listbuckets.allowListing :=
          default (default_bool s "allowListing" false) (lo_allowListing raw);
        Listbuckets.opt_bucketType :=
          default (default_string s "bucketType" "") (lo_bucketType raw);
        Listbuckets.stream :=
          default (default_bool s "stream" false) (lo_stream raw);
        Listbuckets.timeout := lo_timeout raw |}.

#[export] Instance listbuckets_requires : Listbuckets.Requires := {|
  Listbuckets.RawOptions := list_options;
  Listbuckets.validateOptions := fill_defaults;
  Listbuckets.Buffer_from_string := ascii_bytes;
  Listbuckets.Buffer_toString_utf8 := ascii_text
|}.

(** [{ allowListing: true, stream: false }] *)
Definition accumulate_options : list_options :=
  {| lo_allowListing := Some true;
     lo_bucketType := None;
     lo_stream := Some false;
     lo_timeout := None |}.

(** [{}] *)
Definition no_options : list_options :=
  {| lo_allowListing := None;
     lo_bucketType := None;
     lo_stream := None;
     lo_timeout := None |}.

Definition accumulate_command : Listbuckets.ListBucketsObject :=
  {| Listbuckets.base :=
       Listbuckets.CommandBase "RpbListBucketsReq" "RpbListBucketsResp"
         (FunctionRef 2);
     Listbuckets.options :=
       {| Listbuckets.allowListing := true;
          Listbuckets.opt_bucketType := "default";
          Listbuckets.stream := false;
          Listbuckets.timeout := None |};
     Listbuckets.buckets := Some [] |}.

(** Two frames without [done], then the last one. *)
Definition frames_before_done : list Listbuckets.RpbListBucketsResp :=
  [ {| Listbuckets.resp_buckets := [[97]; [98]];
       Listbuckets.resp_done := None |};
    {| Listbuckets.resp_buckets := [[99]];
       Listbuckets.resp_done := Some false |} ].

Definition done_frame : Listbuckets.RpbListBucketsResp :=
  {| Listbuckets.resp_buckets := [[100]];
     Listbuckets.resp_done := Some true |}.

(** A decoded RpbGetResp with two siblings. *)
Definition siblings_response : Fetchvalue.RpbGetResp :=
  {| Fetchvalue.getContent := [[1; 2]; [3]];
     Fetchvalue.getVclock := Some [9] |}.



(** [{ allowListing: true }]: stream mode, the default. *)
Definition stream_options : list_options :=
  {| lo_allowListing := Some true;
     lo_bucketType := None;
     lo_stream := None;
     lo_timeout := None |}.

Definition stream_command : Listbuckets.ListBucketsObject :=
  {| Listbuckets.base :=
       Listbuckets.CommandBase "RpbListBucketsReq" "RpbListBucketsResp"
         (FunctionRef 2);
     Listbuckets.options :=
       {| Listbuckets.allowListing := true;
          Listbuckets.opt_bucketType := "default";
          Listbuckets.stream := true;
          Listbuckets.timeout := None |};
     Listbuckets.buckets := None |}.

End Sample.

Import Sample.

(** ** Facts about Buffers and Results *)

Module JsFacts.

Lemma bind_Ok {A B} (m : Result A) (f : A → Result B) (b : B) :
  m ≫= f = Ok b → ∃ a, m = Ok a ∧ f a = Ok b.
Proof.
  destruct m as [a|e]; simpl; intros Hb.
  - exists a. split; [reflexivity | exact Hb].
  - discriminate Hb.
Qed.

Lemma length_Buffer_alloc (size : nat) (garbage : Buffer) :
  length (Buffer_alloc size garbage) = size.
Proof.
  unfold Buffer_alloc.
  rewrite length_take, length_app, length_replicate. lia.
Qed.

Lemma octet_small (v : Z) : 0 ≤ v ≤ 255 → octet v = v.
Proof.
  intros Hv. unfold octet. change 255 with (Z.ones 8).
  rewrite Z.land_ones by lia. apply Z.mod_small. lia.
Qed.

Lemma octet_range (v : Z) : 0 ≤ octet v ≤ 255.
Proof.
  unfold octet. change (Z.land v 255) with (Z.land v (Z.ones 8)).
  rewrite Z.land_ones by lia.
  change (2 ^ 8) with 256.
  pose proof (Z.mod_pos_bound v 256). lia.
Qed.

(** The four octets [writeInt32BE] stores, read back most significant
    first, are the value modulo 2^32. *)
Lemma octets_be (u : Z) :
  Z.lor (Z.shiftl (octet (Z.shiftr u 24)) 24)
    (Z.lor (Z.shiftl (octet (Z.shiftr u 16)) 16)
      (Z.lor (Z.shiftl (octet (Z.shiftr u 8)) 8) (octet u)))
  = u `mod` 2 ^ 32.
Proof.
  rewrite <- Z.land_ones by lia.
  unfold octet. change 255 with (Z.ones 8).
  Z.bitblast.
Qed.

Lemma checkInt_Ok (buf : Buffer) (value : Z) (offset ext : nat) (max min : Z) :
  checkInt buf value offset ext max min = Ok () ↔
  min ≤ value ≤ max ∧ (offset + ext ≤ length buf)%nat.
Proof.
  unfold checkInt. repeat case_bool_decide; split; intros Hc;
    try discriminate; try reflexivity; lia.
Qed.

Lemma writeUInt8_Ok (buf : Buffer) (value : Z) (offset : nat) (h : Buffer) :
  writeUInt8 buf value offset = Ok h →
  0 ≤ value ≤ 255 ∧ (offset < length buf)%nat ∧ h = <[offset := value]> buf.
Proof.
  unfold writeUInt8. intros Hw.
  apply bind_Ok in Hw as [[] [Hc Hh]].
  apply checkInt_Ok in Hc as [Hv Ho].
  injection Hh as <-. rewrite octet_small by lia.
  repeat split; lia.
Qed.

Lemma writeInt32BE_Ok (buf : Buffer) (value : Z) (offset : nat) :
  -2147483648 ≤ value ≤ 2147483647 →
  (offset + 4 ≤ length buf)%nat →
  writeInt32BE buf value offset =
    Ok (<[(offset + 3)%nat := octet (value `mod` 2 ^ 32)]>
        (<[(offset + 2)%nat := octet (Z.shiftr (value `mod` 2 ^ 32) 8)]>
         (<[(offset + 1)%nat := octet (Z.shiftr (value `mod` 2 ^ 32) 16)]>
          (<[offset := octet (Z.shiftr (value `mod` 2 ^ 32) 24)]> buf)))).
Proof.
  intros Hv Ho. unfold writeInt32BE.
  assert (checkInt buf value offset 4 2147483647 (-2147483648) = Ok ()) as ->
    by (apply checkInt_Ok; lia).
  reflexivity.
Qed.

Lemma writeInt32BE_Throw (buf : Buffer) (value : Z) (offset : nat) :
  2147483647 < value →
  ∃ e, writeInt32BE buf value offset = Throw e.
Proof.
  intros Hv. unfold writeInt32BE, checkInt.
  rewrite bool_decide_eq_true_2 by lia. by eexists.
Qed.

Lemma five_octets (buf : Buffer) :
  length buf = 5%nat → ∃ a b c d e, buf = [a; b; c; d; e].
Proof.
  intros Hl.
  destruct buf as [|a [|b [|c [|d [|e [|]]]]]]; try discriminate Hl.
  by exists a, b, c, d, e.
Qed.

End JsFacts.

(** ** Properties of FetchValue *)

Module FetchvalueSpec.

Import Fetchvalue JsFacts.

Section Command.
Context `{R : Requires}.

(** The header the constructor leaves: four octets not yet written and
    the request code, which fits an octet. *)
Lemma FetchValue_header (s : Joi.Schema) (options : RawOptions)
  (garbage : Buffer) (this : FetchValueObject) :
  FetchValue s options garbage = Ok this →
  0 ≤ requestCode ≤ 255 ∧
  ∃ a b c d, header this = [a; b; c; d; requestCode].
Proof.
  unfold FetchValue. intros Hnew.
  apply bind_Ok in Hnew as (o & _ & Hnew).
  apply bind_Ok in Hnew as (h & Hw & Hnew).
  injection Hnew as <-. simpl.
  apply writeUInt8_Ok in Hw as (Hcode & _ & ->).
  split; [exact Hcode |].
  destruct (five_octets (Buffer_alloc 5 garbage) (length_Buffer_alloc 5 garbage))
    as (a & b & c & d & e & ->).
  by exists a, b, c, d.
Qed.

(** What [getRiakMessage] returns on a command whose header holds five
    octets, for a payload whose length plus one is an int32. *)
Lemma getRiakMessage_Ok (this : FetchValueObject) (a b c d code : Z) :
  header this = [a; b; c; d; code] →
  Z.of_nat (length (RpbGetReq_encode (protobuf this))) + 1 ≤ 2147483647 →
  let encoded := RpbGetReq_encode (protobuf this) in
  let n := Z.of_nat (length encoded) + 1 in
  let h := [octet (Z.shiftr n 24); octet (Z.shiftr n 16);
            octet (Z.shiftr n 8); octet n; code] in
  getRiakMessage this =
    Ok ({| msg_protobuf := encoded; msg_header := h |}, set_header this h).
Proof.
  intros Hh Hlen encoded n h. unfold getRiakMessage.
  fold encoded. fold n.
  assert (0 ≤ n ≤ 2147483647) as Hn by (unfold n, encoded; lia).
  rewrite writeInt32BE_Ok; [| lia | rewrite Hh; simpl; lia].
  rewrite Hh. rewrite (Z.mod_small n) by lia.
  reflexivity.
Qed.

(** C1. The frame [getRiakMessage] returns for a FetchValue command is
    the encoded protobuf with a header of five octets: the first four are
    the big-endian encoding of the payload's length plus one, the fifth
    is the request code.  The payload is one whose length plus one is an
    int32, the range [writeInt32BE] accepts (a Buffer cannot be longer). *)
Theorem getRiakMessage_frame (s : Joi.Schema) (options : RawOptions)
  (garbage : Buffer) (this : FetchValueObject) :
  FetchValue s options garbage = Ok this →
  Z.of_nat (length (RpbGetReq_encode (protobuf this))) + 1 ≤ 2147483647 →
  ∃ msg this',
    getRiakMessage this = Ok (msg, this') ∧
    msg_protobuf msg = RpbGetReq_encode (protobuf this) ∧
    (let n := Z.of_nat (length (msg_protobuf msg)) + 1 in
     msg_header msg =
       [octet (Z.shiftr n 24); octet (Z.shiftr n 16); octet (Z.shiftr n 8);
        octet n; requestCode]) ∧
    length (msg_header msg) = 5%nat ∧
    readUInt32BE (msg_header msg) 0 = Z.of_nat (length (msg_protobuf msg)) + 1 ∧
    readUInt8 (msg_header msg) 4 = requestCode ∧
    Forall (fun o => 0 ≤ o ≤ 255) (msg_header msg).
Proof.
  intros Hnew Hlen.
  destruct (FetchValue_header _ _ _ _ Hnew) as (Hcode & a & b & c & d & Hh).
  eexists _, _. split; [by apply (getRiakMessage_Ok this a b c d requestCode) |].
  simpl. repeat split.
  - unfold readUInt32BE, readUInt8. simpl.
    rewrite octets_be. apply Z.mod_small. lia.
  - repeat constructor; try apply octet_range; lia.
Qed.

(** Past that range [writeInt32BE] refuses the length and
    [getRiakMessage] throws. *)
Lemma getRiakMessage_Throw (this : FetchValueObject) :
  2147483647 < Z.of_nat (length (RpbGetReq_encode (protobuf this))) + 1 →
  ∃ e, getRiakMessage this = Throw e.
Proof.
  intros Hlen. unfold getRiakMessage.
  destruct (writeInt32BE_Throw (header this) _ 0 Hlen) as [e ->].
  by exists e.
Qed.

(** C9. Two successive calls of [getRiakMessage] on a FetchValue command
    return the same header and the same payload, and the second call
    leaves the command as the first left it. *)
Theorem getRiakMessage_twice (s : Joi.Schema) (options : RawOptions)
  (garbage : Buffer) (this : FetchValueObject) :
  FetchValue s options garbage = Ok this →
  Z.of_nat (length (RpbGetReq_encode (protobuf this))) + 1 ≤ 2147483647 →
  ∃ msg this',
    getRiakMessage this = Ok (msg, this') ∧
    getRiakMessage this' = Ok (msg, this').
Proof.
  intros Hnew Hlen.
  destruct (FetchValue_header _ _ _ _ Hnew) as (_ & a & b & c & d & Hh).
  eexists _, _. split; [by apply (getRiakMessage_Ok this a b c d requestCode) |].
  by rewrite (getRiakMessage_Ok (set_header this _) _ _ _ _ requestCode eq_refl).
Qed.

(** C10. [getExpectedResponseCode] returns the code registered for
    RpbGetResp, whatever the command. *)
Theorem getExpectedResponseCode_fixed (this this' : FetchValueObject) :
  getExpectedResponseCode this = getCodeFor "RpbGetResp" ∧
  getExpectedResponseCode this = getExpectedResponseCode this'.
Proof. split; reflexivity. Qed.

(** A reply [onSuccess] can read: the [null] one, or one that carries a
    vclock. *)
Lemma onSuccess_returns (this : FetchValueObject)
  (rpbGetResp : option RpbGetResp) (log : list Call) :
  (∀ resp, rpbGetResp = Some resp → is_Some (getVclock resp)) →
  ∃ args,
    onSuccess this rpbGetResp log =
      (Ok true, log ++ [{| callee := callback this; arguments := args |}]) ∧
    (2 ≤ length args ≤ 3)%nat.
Proof.
  intros Hvclock. unfold onSuccess, call_callback.
  destruct rpbGetResp as [resp|].
  - destruct (Hvclock resp eq_refl) as [vclock ->].
    case_bool_decide; eexists; (split; [reflexivity | simpl; lia]).
  - eexists. split; [reflexivity | simpl; lia].
Qed.

(** C4. [onSuccess] does not return [true] for every decoded response:
    on a reply that carries no vclock, whatever its content, reading the
    vclock throws a TypeError, before the callback is called and before
    anything is returned. *)
Theorem onSuccess_without_vclock (this : FetchValueObject)
  (content : list RpbContent) (log : list Call) :
  onSuccess this (Some {| getContent := content; getVclock := None |}) log =
    (Throw (TypeError "Cannot read properties of null (reading 'toBuffer')"),
     log) ∧
  (onSuccess this (Some {| getContent := content; getVclock := None |}) log).1
    ≠ Ok true.
Proof. split; [reflexivity | discriminate]. Qed.

(** The two kinds of response for which [onSuccess] hands the callback a
    [null] error and a Response: the [null] response and a response with
    a vclock and at least one content. *)
Lemma onSuccess_response (this : FetchValueObject)
  (rpbGetResp : option RpbGetResp) (log : list Call) :
  (∀ resp, rpbGetResp = Some resp →
           getContent resp ≠ [] ∧ is_Some (getVclock resp)) →
  ∃ r, (onSuccess this rpbGetResp log).2 =
         log ++ [{| callee := callback this; arguments := [ANull; AResponse r] |}].
Proof.
  intros Hresp. unfold onSuccess.
  destruct rpbGetResp as [resp|]; [| by eexists].
  destruct (Hresp resp eq_refl) as [Hcontent [vclock ->]].
  case_bool_decide as Hlen; [| by eexists].
  apply length_zero_iff_nil in Hlen. by destruct Hcontent.
Qed.

(** C2. On a response whose content list is empty (a lone tombstone)
    [onSuccess] calls the callback once, with [false], [false] and the
    array of one value/meta pair: the error argument is not [null] and
    the result argument is not a Response. *)
Theorem onSuccess_tombstone_arguments (this : FetchValueObject) (vclock : Buffer) :
  let call :=
    {| callee := callback this;
       arguments :=
         [ABool false; ABool false;
          AArray [{| value := []; meta := tombstone_meta this |}]] |} in
  onSuccess this (Some {| getContent := []; getVclock := Some vclock |}) []
    = (Ok true, [call]) ∧
  ∀ r, arguments call ≠ [ANull; AResponse r].
Proof.
  split; [reflexivity |].
  intros r Hargs. discriminate Hargs.
Qed.

(** C8. On a [null] response the callback receives a [null] error and a
    Response that is not found, not unchanged, and has no values. *)
Theorem onSuccess_null_not_found (this : FetchValueObject) :
  ∃ r,
    onSuccess this None [] =
      (Ok true,
       [{| callee := callback this; arguments := [ANull; AResponse r] |}]) ∧
    isNotFound r = true ∧
    isUnchanged r = false ∧
    values r = [].
Proof. eexists. repeat split. Qed.

(** C5. [onRiakError] calls the callback once, with the error message
    decoded as UTF-8 as the error argument and [null] as the result. *)
Theorem onRiakError_callback (this : FetchValueObject)
  (rpbErrorResp : RpbErrorResp) (log : list Call) :
  onRiakError this rpbErrorResp log =
    log ++ [{| callee := callback this;
               arguments :=
                 [AString (Buffer_toString_utf8 (getErrmsg rpbErrorResp));
                  ANull] |}].
Proof. reflexivity. Qed.

(** C6. Loading the module raises a ReferenceError for [joi], bound
    nowhere ([Joi] is), while the schema is built; the constructor is
    never exported, so constructing a FetchValue through the module
    raises that error for every options value. *)
Theorem construct_ReferenceError (options : RawOptions) (garbage : Buffer) :
  construct options garbage = Throw (ReferenceError "joi") ∧
  "Joi" ∈ module_scope ∧
  "joi" ∉ module_scope.
Proof.
  split; [reflexivity |].
  split; apply (bool_decide_unpack _); by vm_compute.
Qed.

End Command.

Lemma getRiakMessage_frame_witness :
  FetchValue [] fetch_options [7; 7; 7; 7; 7] = Ok fetch_command ∧
  Z.of_nat (length (RpbGetReq_encode (protobuf fetch_command))) + 1 ≤ 2147483647 ∧
  ∃ msg this',
    getRiakMessage fetch_command = Ok (msg, this') ∧
    msg_protobuf msg = RpbGetReq_encode (protobuf fetch_command) ∧
    (let n := Z.of_nat (length (msg_protobuf msg)) + 1 in
     msg_header msg =
       [octet (Z.shiftr n 24); octet (Z.shiftr n 16); octet (Z.shiftr n 8);
        octet n; requestCode]) ∧
    length (msg_header msg) = 5%nat ∧
    readUInt32BE (msg_header msg) 0 = Z.of_nat (length (msg_protobuf msg)) + 1 ∧
    readUInt8 (msg_header msg) 4 = requestCode ∧
    Forall (fun o => 0 ≤ o ≤ 255) (msg_header msg).
Proof.
  split; [reflexivity |].
  split; [vm_compute; discriminate |].
  apply (getRiakMessage_frame (R := fetchvalue_requires)
           [] fetch_options [7; 7; 7; 7; 7] fetch_command).
  - reflexivity.
  - vm_compute. discriminate.
Defined.

Lemma getRiakMessage_twice_witness :
  FetchValue [] fetch_options [7; 7; 7; 7; 7] = Ok fetch_command ∧
  Z.of_nat (length (RpbGetReq_encode (protobuf fetch_command))) + 1 ≤ 2147483647 ∧
  ∃ msg this',
    getRiakMessage fetch_command = Ok (msg, this') ∧
    getRiakMessage this' = Ok (msg, this').
Proof.
  split; [reflexivity |].
  split; [vm_compute; discriminate |].
  apply (getRiakMessage_twice (R := fetchvalue_requires)
           [] fetch_options [7; 7; 7; 7; 7] fetch_command).
  - reflexivity.
  - vm_compute. discriminate.
Defined.

End FetchvalueSpec.

(** ** Properties of ListBuckets *)

Module ListbucketsSpec.

Import Listbuckets JsFacts.

Section Command.
Context `{R : Requires}.

Lemma ListBuckets_Ok (raw : RawOptions) (cb : JsFunction)
  (this : ListBucketsObject) :
  ListBuckets raw cb = Ok this →
  ∃ o, validateOptions raw schema = Ok o ∧
       allowListing o = true ∧
       this = {| base := CommandBase "RpbListBucketsReq" "RpbListBucketsResp" cb;
                 options := o;
                 buckets := if negb (stream o) then Some [] else None |}.
Proof.
  unfold ListBuckets. intros Hnew.
  apply bind_Ok in Hnew as (o & Hv & Hnew).
  exists o. destruct (allowListing o); simpl in Hnew; [| discriminate Hnew].
  injection Hnew as <-. by repeat split.
Qed.

(** A failed validation is what the constructor throws. *)
Lemma ListBuckets_Throw (raw : RawOptions) (cb : JsFunction) (e : JsError) :
  validateOptions raw schema = Throw e →
  ListBuckets raw cb = Throw e.
Proof. intros Hv. unfold ListBuckets. by rewrite Hv. Qed.

Lemma ListBuckets_has_buckets (raw : RawOptions) (cb : JsFunction)
  (this : ListBucketsObject) :
  ListBuckets raw cb = Ok this → has_buckets this.
Proof.
  intros Hnew. apply ListBuckets_Ok in Hnew as (o & _ & _ & ->).
  unfold has_buckets. simpl. intros ->. by eexists.
Qed.

(** [onSuccess] in accumulate mode. *)
Lemma onSuccess_accumulate (this : ListBucketsObject) (bs : list string)
  (resp : RpbListBucketsResp) (log : list Call) :
  stream (options this) = false →
  buckets this = Some bs →
  onSuccess this resp log =
    Ok (resp_done resp, set_buckets this (bs ++ frame_names resp),
        if truthy (resp_done resp)
        then _callback (base this)
               [ANull; AResponse (bs ++ frame_names resp) (resp_done resp)] log
        else log).
Proof.
  intros Hs Hb. unfold onSuccess. rewrite Hs, Hb.
  by destruct (truthy (resp_done resp)).
Qed.

(** [onSuccess] returns the frame's [done] and keeps [this.buckets]
    defined. *)
Lemma onSuccess_done (this : ListBucketsObject) (resp : RpbListBucketsResp)
  (log : list Call) :
  has_buckets this →
  ∃ this' log',
    onSuccess this resp log = Ok (resp_done resp, this', log') ∧
    has_buckets this'.
Proof.
  intros Hb. destruct (stream (options this)) eqn:Hs.
  - unfold onSuccess. rewrite Hs. by eexists _, _.
  - destruct (Hb Hs) as [bs Hbs].
    rewrite (onSuccess_accumulate this bs) by done.
    eexists _, _. split; [reflexivity |]. intros _. by eexists.
Qed.

Lemma onSuccess_frames_has_buckets (frames : list RpbListBucketsResp) :
  ∀ (this : ListBucketsObject) (log : list Call)
    (this' : ListBucketsObject) (log' : list Call),
  has_buckets this →
  onSuccess_frames this frames log = Ok (this', log') →
  has_buckets this'.
Proof.
  induction frames as [|f rest IH]; intros this log this' log' Hb Hrun.
  - simpl in Hrun. by injection Hrun as <- <-.
  - simpl in Hrun.
    destruct (onSuccess_done this f log Hb) as (this1 & log1 & Hf & Hb1).
    rewrite Hf in Hrun. simpl in Hrun. by eapply IH.
Qed.

Lemma bucket_names_cons (f : RpbListBucketsResp)
  (rest : list RpbListBucketsResp) :
  bucket_names (f :: rest) = frame_names f ++ bucket_names rest.
Proof. reflexivity. Qed.

(** Accumulating over frames none of which is the last, then over the
    frame that says [done]: one call, with every name received. *)
Lemma accumulate_until_done (init : list RpbListBucketsResp) :
  ∀ (this : ListBucketsObject) (bs : list string)
    (last : RpbListBucketsResp) (log : list Call),
  stream (options this) = false →
  buckets this = Some bs →
  Forall (fun f => truthy (resp_done f) = false) init →
  truthy (resp_done last) = true →
  onSuccess_frames this (init ++ [last]) log =
    Ok (set_buckets this (bs ++ bucket_names (init ++ [last])),
        _callback (base this)
          [ANull; AResponse (bs ++ bucket_names (init ++ [last])) (resp_done last)]
          log).
Proof.
  induction init as [|f rest IH]; intros this bs last log Hs Hb Hinit Hlast.
  - simpl. rewrite (onSuccess_accumulate this bs) by done.
    rewrite Hlast. simpl. rewrite bucket_names_cons.
    unfold bucket_names. simpl. by rewrite !app_nil_r.
  - inversion_clear Hinit as [|? ? Hf Hrest].
    simpl. rewrite (onSuccess_accumulate this bs) by done.
    rewrite Hf. simpl.
    rewrite (IH (set_buckets this (bs ++ frame_names f)) (bs ++ frame_names f))
      by done.
    simpl. rewrite bucket_names_cons. by rewrite !app_assoc.
Qed.

(** Accumulating over frames none of which says [done]: no call. *)
Lemma accumulate_silent (frames : list RpbListBucketsResp) :
  ∀ (this : ListBucketsObject) (bs : list string) (log : list Call),
  stream (options this) = false →
  buckets this = Some bs →
  Forall (fun f => truthy (resp_done f) = false) frames →
  onSuccess_frames this frames log =
    Ok (set_buckets this (bs ++ bucket_names frames), log).
Proof.
  induction frames as [|f rest IH]; intros this bs log Hs Hb Hframes.
  - simpl. unfold bucket_names. simpl. rewrite app_nil_r.
    destruct this. simpl in Hb. by subst.
  - inversion_clear Hframes as [|? ? Hf Hrest].
    simpl. rewrite (onSuccess_accumulate this bs) by done.
    rewrite Hf. simpl.
    rewrite (IH (set_buckets this (bs ++ frame_names f)) (bs ++ frame_names f))
      by done.
    simpl. rewrite bucket_names_cons. by rewrite !app_assoc.
Qed.

(** C3. On every frame of an exchange, whatever frames came before it,
    [onSuccess] returns the frame's [done]: the exchange is declared
    over exactly when the frame says [done]. *)
Theorem onSuccess_returns_done (raw : RawOptions) (cb : JsFunction)
  (this0 this : ListBucketsObject) (earlier : list RpbListBucketsResp)
  (log0 log : list Call) (resp : RpbListBucketsResp) :
  ListBuckets raw cb = Ok this0 →
  onSuccess_frames this0 earlier log0 = Ok (this, log) →
  ∃ ret this' log',
    onSuccess this resp log = Ok (ret, this', log') ∧
    ret = resp_done resp ∧
    (truthy ret = true ↔ resp_done resp = Some true).
Proof.
  intros Hnew Hrun.
  assert (has_buckets this) as Hb.
  { eapply onSuccess_frames_has_buckets; [| exact Hrun].
    by eapply ListBuckets_has_buckets. }
  destruct (onSuccess_done this resp log Hb) as (this' & log' & Hf & _).
  exists (resp_done resp), this', log'.
  split; [exact Hf |]. split; [reflexivity |].
  by destruct (resp_done resp) as [[]|].
Qed.

(** C7. In accumulate mode, over frames of which only the last says
    [done], the callback is called once, on the last frame, with [null]
    and all the names in arrival order; after any number of the earlier
    frames it has not been called.  And the constructor throws a
    ListError when the validated options do not allow listing. *)
Theorem accumulate_callback_once (raw : RawOptions) (cb : JsFunction)
  (this : ListBucketsObject) (init : list RpbListBucketsResp)
  (last : RpbListBucketsResp)
  (raw' : RawOptions) (cb' : JsFunction) (o' : Options) :
  ListBuckets raw cb = Ok this →
  stream (options this) = false →
  Forall (fun f => truthy (resp_done f) = false) init →
  resp_done last = Some true →
  validateOptions raw' schema = Ok o' →
  allowListing o' ≠ true →
  (∀ k, ∃ this1, onSuccess_frames this (take k init) [] = Ok (this1, [])) ∧
  (∃ this2,
     onSuccess_frames this (init ++ [last]) [] =
       Ok (this2,
           [{| callee := cb;
               arguments :=
                 [ANull; AResponse (bucket_names (init ++ [last])) (Some true)] |}])) ∧
  ListBuckets raw' cb' = Throw ListError.
Proof.
  intros Hnew Hs Hinit Hlast Hv Hallow.
  apply ListBuckets_Ok in Hnew as (o & _ & _ & ->). simpl in Hs.
  split; [| split].
  - intros k. eexists.
    apply (accumulate_silent (take k init) _ []); simpl;
      [done | by rewrite Hs | by apply Forall_take].
  - eexists.
    rewrite (accumulate_until_done init _ []); simpl;
      [by rewrite Hlast | done | by rewrite Hs | done | by rewrite Hlast].
  - unfold ListBuckets. rewrite Hv. simpl.
    by destruct (allowListing o').
Qed.

End Command.

Lemma onSuccess_returns_done_witness :
  ListBuckets accumulate_options (FunctionRef 2) = Ok accumulate_command ∧
  onSuccess_frames accumulate_command frames_before_done [] =
    Ok (set_buckets accumulate_command ["a"; "b"; "c"], []) ∧
  ∃ ret this' log',
    onSuccess (set_buckets accumulate_command ["a"; "b"; "c"]) done_frame []
      = Ok (ret, this', log') ∧
    ret = resp_done done_frame ∧
    (truthy ret = true ↔ resp_done done_frame = Some true).
Proof.
  split; [reflexivity |].
  split; [reflexivity |].
  apply (onSuccess_returns_done (R := listbuckets_requires)
           accumulate_options (FunctionRef 2) accumulate_command
           (set_buckets accumulate_command ["a"; "b"; "c"])
           frames_before_done [] [] done_frame).
  - reflexivity.
  - reflexivity.
Defined.

Lemma accumulate_callback_once_witness :
  ListBuckets accumulate_options (FunctionRef 2) = Ok accumulate_command ∧
  stream (options accumulate_command) = false ∧
  Forall (fun f => truthy (resp_done f) = false) frames_before_done ∧
  resp_done done_frame = Some true ∧
  validateOptions no_options schema =
    Ok {| allowListing := false; opt_bucketType := "default";
          stream := true; timeout := None |} ∧
  (∀ k, ∃ this1,
     onSuccess_frames accumulate_command (take k frames_before_done) []
       = Ok (this1, [])) ∧
  (∃ this2,
     onSuccess_frames accumulate_command (frames_before_done ++ [done_frame]) [] =
       Ok (this2,
           [{| callee := FunctionRef 2;
               arguments :=
                 [ANull;
                  AResponse (bucket_names (frames_before_done ++ [done_frame]))
                    (Some true)] |}])) ∧
  ListBuckets no_options (FunctionRef 3) = Throw ListError.
Proof.
  split; [reflexivity |].
  split; [reflexivity |].
  split; [repeat constructor |].
  split; [reflexivity |].
  split; [reflexivity |].
  apply (accumulate_callback_once (R := listbuckets_requires)
           accumulate_options (FunctionRef 2) accumulate_command
           frames_before_done done_frame
           no_options (FunctionRef 3)
           {| allowListing := false; opt_bucketType := "default";
              stream := true; timeout := None |}).
  - reflexivity.
  - reflexivity.
  - repeat constructor.
  - reflexivity.
  - reflexivity.
  - discriminate.
Defined.

End ListbucketsSpec.

(** ** More about FetchValue: construction, framing, responses *)

Module FetchvalueMore.

Import Fetchvalue JsFacts.

Section Command.
Context `{R : Requires}.

Lemma writeInt32BE_inv (buf : Buffer) (value : Z) (offset : nat) (h : Buffer) :
  writeInt32BE buf value offset = Ok h →
  -2147483648 ≤ value ≤ 2147483647 ∧ (offset + 4 ≤ length buf)%nat.
Proof.
  unfold writeInt32BE. intros Hw.
  apply bind_Ok in Hw as [[] [Hc _]].
  by apply checkInt_Ok in Hc.
Qed.

Lemma four_octets (buf : Buffer) :
  (4 ≤ length buf)%nat → ∃ a b c d rest, buf = a :: b :: c :: d :: rest.
Proof.
  intros Hl.
  destruct buf as [|a [|b [|c [|d rest]]]]; simpl in Hl; try lia.
  by exists a, b, c, d, rest.
Qed.

(** [getRiakMessage] on a header of four octets or more. *)
Lemma getRiakMessage_writes (this : FetchValueObject) (a b c d : Z)
  (rest : Buffer) :
  header this = a :: b :: c :: d :: rest →
  Z.of_nat (length (RpbGetReq_encode (protobuf this))) + 1 ≤ 2147483647 →
  let encoded := RpbGetReq_encode (protobuf this) in
  let n := Z.of_nat (length encoded) + 1 in
  let h := octet (Z.shiftr n 24) :: octet (Z.shiftr n 16)
             :: octet (Z.shiftr n 8) :: octet n :: rest in
  getRiakMessage this =
    Ok ({| msg_protobuf := encoded; msg_header := h |}, set_header this h).
Proof.
  intros Hh Hlen encoded n h. unfold getRiakMessage.
  fold encoded. fold n.
  assert (0 ≤ n ≤ 2147483647) as Hn by (unfold n, encoded; lia).
  rewrite writeInt32BE_Ok; [| lia | rewrite Hh; simpl; lia].
  rewrite Hh. rewrite (Z.mod_small n) by lia.
  reflexivity.
Qed.

Lemma getRiakMessage_inv (this this' : FetchValueObject) (msg : RiakMessage) :
  getRiakMessage this = Ok (msg, this') →
  Z.of_nat (length (RpbGetReq_encode (protobuf this))) + 1 ≤ 2147483647 ∧
  (4 ≤ length (header this))%nat.
Proof.
  unfold getRiakMessage. intros Hm.
  apply bind_Ok in Hm as (h & Hw & _).
  apply writeInt32BE_inv in Hw. lia.
Qed.

(** X1. Whatever the command's header held, a message [getRiakMessage]
    returns carries the encoded protobuf and a header whose first four
    octets read back as the payload's length plus one; the header keeps
    its length and every octet from the fifth on, and nothing of the
    command but its header changes. *)
Theorem getRiakMessage_sound (this this' : FetchValueObject) (msg : RiakMessage) :
  getRiakMessage this = Ok (msg, this') →
  msg_protobuf msg = RpbGetReq_encode (protobuf this) ∧
  readUInt32BE (msg_header msg) 0 = Z.of_nat (length (msg_protobuf msg)) + 1 ∧
  length (msg_header msg) = length (header this) ∧
  (∀ i, (4 ≤ i)%nat → msg_header msg !! i = header this !! i) ∧
  this' = set_header this (msg_header msg).
Proof.
  intros Hm.
  destruct (getRiakMessage_inv _ _ _ Hm) as [Hlen Hh].
  destruct (four_octets _ Hh) as (a & b & c & d & rest & Hhe).
  rewrite (getRiakMessage_writes this a b c d rest Hhe Hlen) in Hm.
  injection Hm as <- <-. simpl. rewrite Hhe.
  repeat split.
  - unfold readUInt32BE, readUInt8. simpl.
    rewrite octets_be. apply Z.mod_small. lia.
  - intros i Hi. by do 4 (destruct i as [|i]; [lia |]).
Qed.

(** X2. [getRiakMessage] returns a message exactly when the payload's
    length plus one is an int32 and the header has room for the four
    length octets; otherwise it throws. *)
Theorem getRiakMessage_defined (this : FetchValueObject) :
  (∃ msg this', getRiakMessage this = Ok (msg, this')) ↔
  Z.of_nat (length (RpbGetReq_encode (protobuf this))) + 1 ≤ 2147483647 ∧
  (4 ≤ length (header this))%nat.
Proof.
  split.
  - intros (msg & this' & Hm). by eapply getRiakMessage_inv.
  - intros [Hlen Hh].
    destruct (four_octets _ Hh) as (a & b & c & d & rest & Hhe).
    eexists _, _. by apply (getRiakMessage_writes this a b c d rest).
Qed.

(** X3. Once [getRiakMessage] has returned, calling it again on the
    command returns the same message and changes nothing. *)
Theorem getRiakMessage_idempotent (this this' : FetchValueObject)
  (msg : RiakMessage) :
  getRiakMessage this = Ok (msg, this') →
  getRiakMessage this' = Ok (msg, this').
Proof.
  intros Hm.
  destruct (getRiakMessage_inv _ _ _ Hm) as [Hlen Hh].
  destruct (four_octets _ Hh) as (a & b & c & d & rest & Hhe).
  rewrite (getRiakMessage_writes this a b c d rest Hhe Hlen) in Hm.
  injection Hm as <- <-.
  by rewrite (getRiakMessage_writes (set_header this _) _ _ _ _ rest eq_refl).
Qed.


(** X5. For every decoded response and whatever was logged before,
    [onSuccess] either returns [true] having added exactly one call, of
    the command's own callback, after the earlier calls (when the
    response is [null] or carries a vclock), or throws having called
    nothing (when the response is not [null] and carries no vclock). *)
Theorem onSuccess_call_or_throw (this : FetchValueObject)
  (rpbGetResp : option RpbGetResp) (log : list Call) :
  (∃ args,
     onSuccess this rpbGetResp log =
       (Ok true, log ++ [{| callee := callback this; arguments := args |}]) ∧
     (2 ≤ length args ≤ 3)%nat ∧
     ∀ resp, rpbGetResp = Some resp → is_Some (getVclock resp)) ∨
  (∃ e resp,
     onSuccess this rpbGetResp log = (Throw e, log) ∧
     rpbGetResp = Some resp ∧
     getVclock resp = None).
Proof.
  unfold onSuccess, call_callback.
  destruct rpbGetResp as [[content [vclock|]]|]; simpl.
  - left. case_bool_decide; eexists;
      (split; [reflexivity |]; split; [simpl; lia |]);
      intros resp [= <-]; by eexists.
  - right. by eexists _, _.
  - left. eexists. split; [reflexivity |]. split; [simpl; lia |].
    intros resp Hresp. discriminate Hresp.
Qed.

(** X6. No Response [onSuccess] hands to the callback is ever marked
    unchanged, and it is marked not found exactly when the decoded
    response was [null]. *)
Theorem onSuccess_flags (this : FetchValueObject)
  (rpbGetResp : option RpbGetResp) (log : list Call) :
  ∀ c r,
    c ∈ (onSuccess this rpbGetResp log).2 →
    c ∉ log →
    AResponse r ∈ arguments c →
    isUnchanged r = false ∧ (isNotFound r = true ↔ rpbGetResp = None).
Proof.
  intros c r Hc Hlog Hr.
  unfold onSuccess, call_callback in Hc.
  destruct rpbGetResp as [[content [vclock|]]|]; simpl in Hc;
    [case_bool_decide | |]; simpl in Hc; try done;
    apply elem_of_app in Hc as [Hc | Hc]; try done;
    apply list_elem_of_singleton in Hc as ->; simpl in Hr;
    repeat (apply elem_of_cons in Hr as [Hr | Hr]; [try discriminate Hr |]);
    try (by apply elem_of_nil in Hr);
    injection Hr as ->; simpl; split; try reflexivity;
    split; intros; done.
Qed.

(** X7. For a response with a vclock and siblings the callback receives
    a Response with one value per content, in the order of the content
    array: the i-th value is the i-th content's value, its meta is
    extracted from that content with the response's vclock and the
    command's bucket type, bucket and key. *)
Theorem onSuccess_values (this : FetchValueObject) (resp : RpbGetResp)
  (vclock : Buffer) (log : list Call) :
  getContent resp ≠ [] →
  getVclock resp = Some vclock →
  ∃ r,
    onSuccess this (Some resp) log =
      (Ok true, log ++ [{| callee := callback this;
                           arguments := [ANull; AResponse r] |}]) ∧
    length (values r) = length (getContent resp) ∧
    ∀ i c,
      getContent resp !! i = Some c →
      values r !! i =
        Some {| value := RpbContent_getValue c;
                meta := extractMetaFromRpbContent c vclock
                          (bucketType this) (bucket this) (key this) |}.
Proof.
  intros Hcontent Hvclock. unfold onSuccess. rewrite Hvclock.
  rewrite bool_decide_eq_false_2
    by (intros Hl; by apply length_zero_iff_nil in Hl).
  eexists. split; [reflexivity |]. simpl. unfold KvResponseBase.
  split; [apply length_fmap |].
  intros i c Hi. rewrite list_lookup_fmap, Hi. reflexivity.
Qed.


End Command.

Lemma getRiakMessage_sound_witness :
  getRiakMessage fetch_command =
    Ok ({| msg_protobuf := [1; 98; 7; 100; 101; 102; 97; 117; 108; 116; 1; 107];
           msg_header := [0; 0; 0; 13; 9] |},
        set_header fetch_command [0; 0; 0; 13; 9]) ∧
  readUInt32BE [0; 0; 0; 13; 9] 0 = 13.
Proof.
  split; [reflexivity |].
  apply (getRiakMessage_sound (R := fetchvalue_requires) fetch_command
           (set_header fetch_command [0; 0; 0; 13; 9])
           {| msg_protobuf := [1; 98; 7; 100; 101; 102; 97; 117; 108; 116; 1; 107];
              msg_header := [0; 0; 0; 13; 9] |}).
  reflexivity.
Defined.

Lemma getRiakMessage_idempotent_witness :
  getRiakMessage fetch_command =
    Ok ({| msg_protobuf := [1; 98; 7; 100; 101; 102; 97; 117; 108; 116; 1; 107];
           msg_header := [0; 0; 0; 13; 9] |},
        set_header fetch_command [0; 0; 0; 13; 9]) ∧
  getRiakMessage (set_header fetch_command [0; 0; 0; 13; 9]) =
    Ok ({| msg_protobuf := [1; 98; 7; 100; 101; 102; 97; 117; 108; 116; 1; 107];
           msg_header := [0; 0; 0; 13; 9] |},
        set_header fetch_command [0; 0; 0; 13; 9]).
Proof.
  split; [reflexivity |].
  apply (getRiakMessage_idempotent (R := fetchvalue_requires) fetch_command).
  reflexivity.
Defined.

Lemma onSuccess_flags_witness :
  isUnchanged (Response true false []) = false ∧
  (isNotFound (Response true false []) = true ↔
   (None : option RpbGetResp) = None).
Proof.
  apply (onSuccess_flags (R := fetchvalue_requires) fetch_command None []
           {| callee := FunctionRef 1;
              arguments := [ANull; AResponse (Response true false [])] |}).
  - simpl. left.
  - apply not_elem_of_nil.
  - apply elem_of_cons. right. apply list_elem_of_singleton. reflexivity.
Defined.

Lemma onSuccess_values_witness :
  getContent siblings_response ≠ [] ∧
  getVclock siblings_response = Some [9] ∧
  ∃ r,
    onSuccess fetch_command (Some siblings_response) [] =
      (Ok true, [] ++ [{| callee := callback fetch_command;
                          arguments := [ANull; AResponse r] |}]) ∧
    length (values r) = length (getContent siblings_response) ∧
    ∀ i c,
      getContent siblings_response !! i = Some c →
      values r !! i =
        Some {| value := RpbContent_getValue c;
                meta := extractMetaFromRpbContent c [9]
                          (bucketType fetch_command) (bucket fetch_command)
                          (key fetch_command) |}.
Proof.
  split; [discriminate |].
  split; [reflexivity |].
  apply (onSuccess_values (R := fetchvalue_requires) fetch_command
           siblings_response [9] []).
  - discriminate.
  - reflexivity.
Defined.


End FetchvalueMore.

(** ** More about ListBuckets: construction, streaming, accumulating *)

Module ListbucketsMore.

Import Listbuckets JsFacts.

Section Command.
Context `{R : Requires}.

Lemma ListBuckets_built (raw : RawOptions) (cb : JsFunction)
  (this : ListBucketsObject) :
  ListBuckets raw cb = Ok this →
  ∃ o, validateOptions raw schema = Ok o ∧
       allowListing o = true ∧
       this = {| base := CommandBase "RpbListBucketsReq" "RpbListBucketsResp" cb;
                 options := o;
                 buckets := if negb (stream o) then Some [] else None |}.
Proof.
  unfold ListBuckets. intros Hnew.
  apply bind_Ok in Hnew as (o & Hv & Hnew).
  exists o. destruct (allowListing o); simpl in Hnew; [| discriminate Hnew].
  injection Hnew as <-. by repeat split.
Qed.

(** X9. Every command the constructor returns allows listing, holds the
    validated options and the callback it was given, and has an empty
    [buckets] array exactly in accumulate mode (none in stream mode). *)
Theorem ListBuckets_invariant (raw : RawOptions) (cb : JsFunction)
  (this : ListBucketsObject) :
  ListBuckets raw cb = Ok this →
  validateOptions raw schema = Ok (options this) ∧
  allowListing (options this) = true ∧
  callback (base this) = cb ∧
  buckets this = (if stream (options this) then None else Some []).
Proof.
  intros Hnew. apply ListBuckets_built in Hnew as (o & Hv & Ha & ->).
  simpl. repeat split; [done | done |]. by destruct (stream o).
Qed.

(** X10. The constructor returns a command exactly when the options
    pass validation and the validated [allowListing] is true; an error
    of the validation is thrown as it is, before the listing check. *)
Theorem ListBuckets_defined (raw : RawOptions) (cb : JsFunction) :
  ((∃ this, ListBuckets raw cb = Ok this) ↔
   (∃ o, validateOptions raw schema = Ok o ∧ allowListing o = true)) ∧
  (∀ e, validateOptions raw schema = Throw e → ListBuckets raw cb = Throw e).
Proof.
  split; [split |].
  - intros [this Hnew]. apply ListBuckets_built in Hnew as (o & Hv & Ha & _).
    by exists o.
  - intros (o & Hv & Ha). unfold ListBuckets. rewrite Hv. simpl.
    rewrite Ha. by eexists.
  - intros e Hv. unfold ListBuckets. by rewrite Hv.
Qed.

Lemma stream_frames (frames : list RpbListBucketsResp) :
  ∀ (this : ListBucketsObject) (log : list Call),
  stream (options this) = true →
  onSuccess_frames this frames log = Ok (this, log ++ (frame_call this <$> frames)).
Proof.
  induction frames as [|f rest IH]; intros this log Hs.
  - simpl. by rewrite app_nil_r.
  - simpl. unfold onSuccess at 1. rewrite Hs. simpl.
    rewrite IH by done. unfold _callback, frame_call, frame_names.
    by rewrite <- app_assoc.
Qed.

(** X11. In stream mode the callback is called once for every frame, in
    arrival order, each time with [null] and that frame's own names and
    [done]; the command itself does not change, and nothing is
    accumulated. *)
Theorem stream_callback_each_frame (this : ListBucketsObject)
  (frames : list RpbListBucketsResp) (log : list Call) :
  stream (options this) = true →
  onSuccess_frames this frames log =
    Ok (this, log ++ (frame_call this <$> frames)).
Proof. apply stream_frames. Qed.

(** The calls over [f :: rest]: the call for [f], if it says [done],
    then the calls over [rest] of the command that holds [f]'s names. *)
Lemma done_calls_cons (this : ListBucketsObject) (bs : list string)
  (f : RpbListBucketsResp) (rest : list RpbListBucketsResp) :
  done_calls this bs (f :: rest) =
    (if truthy (resp_done f)
     then [{| callee := callback (base this);
              arguments :=
                [ANull; AResponse (bs ++ frame_names f) (resp_done f)] |}]
     else [])
    ++ done_calls (set_buckets this (bs ++ frame_names f))
         (bs ++ frame_names f) rest.
Proof.
  unfold done_calls. rewrite imap_cons.
  assert (imap (done_call this bs (f :: rest) ∘ S) rest =
          imap (done_call (set_buckets this (bs ++ frame_names f))
                  (bs ++ frame_names f) rest) rest) as ->.
  { apply imap_ext. intros k f' _. unfold done_call. simpl.
    by rewrite ListbucketsSpec.bucket_names_cons, app_assoc. }
  unfold done_call at 1. simpl. rewrite take_0.
  destruct (truthy (resp_done f)); simpl; [| reflexivity].
  unfold bucket_names. simpl. by rewrite app_nil_r.
Qed.

Lemma done_calls_length (frames : list RpbListBucketsResp) :
  ∀ (this : ListBucketsObject) (bs : list string),
  length (done_calls this bs frames) =
    length (filter (fun f => truthy (resp_done f) = true) frames).
Proof.
  induction frames as [|f rest IH]; intros this bs; [reflexivity |].
  rewrite done_calls_cons, length_app, IH, filter_cons.
  destruct (truthy (resp_done f)) eqn:Hd.
  - by rewrite decide_True by done.
  - by rewrite decide_False by done.
Qed.

Lemma accumulate_frames (frames : list RpbListBucketsResp) :
  ∀ (this : ListBucketsObject) (bs : list string) (log : list Call),
  stream (options this) = false →
  buckets this = Some bs →
  onSuccess_frames this frames log =
    Ok (set_buckets this (bs ++ bucket_names frames),
        log ++ done_calls this bs frames).
Proof.
  induction frames as [|f rest IH]; intros this bs log Hs Hb.
  - simpl. unfold bucket_names, done_calls. simpl. rewrite !app_nil_r.
    destruct this. simpl in Hb. by subst.
  - simpl. rewrite (ListbucketsSpec.onSuccess_accumulate this bs) by done.
    simpl.
    rewrite (IH (set_buckets this (bs ++ frame_names f)) (bs ++ frame_names f))
      by done.
    rewrite done_calls_cons, ListbucketsSpec.bucket_names_cons. simpl.
    rewrite !app_assoc.
    by destruct (truthy (resp_done f)); unfold _callback;
      rewrite ?app_nil_r.
Qed.

(** X12. In accumulate mode, for any frames at all, the calls of the
    callback are exactly these, in frame order: one for every frame that
    says [done], whose array holds, when the call is made, the names the
    command already held followed by the names of all the frames up to
    and including that frame, with that frame's [done]; no call is made
    for any other frame.  The command ends up holding all the names: it
    never empties [this.buckets], which is the array every call is
    handed. *)
Theorem accumulate_calls (this : ListBucketsObject) (bs : list string)
  (frames : list RpbListBucketsResp) (log : list Call) :
  stream (options this) = false →
  buckets this = Some bs →
  onSuccess_frames this frames log =
    Ok (set_buckets this (bs ++ bucket_names frames),
        log ++ done_calls this bs frames) ∧
  length (done_calls this bs frames) =
    length (filter (fun f => truthy (resp_done f) = true) frames) ∧
  ∀ c,
    c ∈ done_calls this bs frames ↔
    ∃ k f,
      frames !! k = Some f ∧
      truthy (resp_done f) = true ∧
      c = {| callee := callback (base this);
             arguments :=
               [ANull;
                AResponse (bs ++ bucket_names (take (S k) frames))
                  (resp_done f)] |}.
Proof.
  intros Hs Hb.
  split; [by apply accumulate_frames |].
  split; [apply done_calls_length |].
  intros c. unfold done_calls. rewrite list_elem_of_omap. split.
  - intros (oc & Hin & Hoc). simpl in Hoc. subst oc.
    apply elem_of_lookup_imap_1 in Hin as (k & f & Hc & Hk).
    exists k, f. split; [exact Hk |].
    unfold done_call in Hc.
    destruct (truthy (resp_done f)); [| discriminate Hc].
    by injection Hc as ->.
  - intros (k & f & Hk & Hd & ->).
    eexists. split; [by apply (elem_of_lookup_imap_2 _ _ f k) |].
    unfold done_call. by rewrite Hd.
Qed.

Lemma call_buckets_frame_call (this : ListBucketsObject)
  (frames : list RpbListBucketsResp) :
  concat (call_buckets <$> (frame_call this <$> frames)) = bucket_names frames.
Proof.
  induction frames as [|f rest IH]; [reflexivity |].
  rewrite ListbucketsSpec.bucket_names_cons, <- IH.
  rewrite !fmap_cons. simpl. unfold call_buckets at 1. simpl.
  by rewrite app_nil_r.
Qed.

(** X13. Streaming and accumulating deliver the same names: over frames
    of which only the last says [done], the names of all the calls of a
    stream-mode command, put end to end, are the names of the one call of
    a fresh accumulate-mode command. *)
Theorem stream_accumulate_agree (s a : ListBucketsObject)
  (init : list RpbListBucketsResp) (last : RpbListBucketsResp) :
  stream (options s) = true →
  stream (options a) = false →
  buckets a = Some [] →
  Forall (fun f => truthy (resp_done f) = false) init →
  truthy (resp_done last) = true →
  ∃ s' a' slog acall,
    onSuccess_frames s (init ++ [last]) [] = Ok (s', slog) ∧
    onSuccess_frames a (init ++ [last]) [] = Ok (a', [acall]) ∧
    length slog = S (length init) ∧
    concat (call_buckets <$> slog) = call_buckets acall ∧
    call_buckets acall = bucket_names (init ++ [last]).
Proof.
  intros Hs Ha Hb Hinit Hlast.
  rewrite (stream_frames (init ++ [last]) s []) by done.
  rewrite (ListbucketsSpec.accumulate_until_done init a [] last []) by done.
  unfold _callback. simpl.
  eexists _, _, _, _.
  split; [reflexivity |].
  split; [reflexivity |].
  split; [| split].
  - rewrite length_fmap, length_app. simpl. lia.
  - rewrite call_buckets_frame_call.
    unfold call_buckets. simpl. by rewrite app_nil_r.
  - unfold call_buckets. simpl. by rewrite app_nil_r.
Qed.

(** X14. A command the constructor returned never throws from
    [onSuccess], whatever frames it is handed and in either mode; its
    options and its callback stay what they were. *)
Theorem onSuccess_frames_never_throws (raw : RawOptions) (cb : JsFunction)
  (this : ListBucketsObject) (frames : list RpbListBucketsResp)
  (log : list Call) :
  ListBuckets raw cb = Ok this →
  ∃ this' log',
    onSuccess_frames this frames log = Ok (this', log') ∧
    options this' = options this ∧
    base this' = base this.
Proof.
  intros Hnew. apply ListBuckets_built in Hnew as (o & _ & _ & ->).
  destruct (stream o) eqn:Hs.
  - eexists _, _. split; [by apply stream_frames |]. done.
  - pose proof (accumulate_frames frames
                  {| base := CommandBase "RpbListBucketsReq"
                               "RpbListBucketsResp" cb;
                     options := o;
                     buckets := Some [] |} [] log Hs eq_refl) as Hrun.
    eexists _, _. split; [exact Hrun |]. done.
Qed.

End Command.

Lemma onSuccess_frames_never_throws_witness :
  ListBuckets stream_options (FunctionRef 2) = Ok stream_command ∧
  ∃ this' log',
    onSuccess_frames stream_command (frames_before_done ++ [done_frame]) []
      = Ok (this', log') ∧
    options this' = options stream_command ∧
    base this' = base stream_command.
Proof.
  split; [reflexivity |].
  apply (onSuccess_frames_never_throws (R := listbuckets_requires)
           stream_options (FunctionRef 2) stream_command).
  reflexivity.
Defined.

Lemma ListBuckets_invariant_witness :
  ListBuckets accumulate_options (FunctionRef 2) = Ok accumulate_command ∧
  validateOptions accumulate_options schema = Ok (options accumulate_command) ∧
  allowListing (options accumulate_command) = true ∧
  callback (base accumulate_command) = FunctionRef 2 ∧
  buckets accumulate_command =
    (if stream (options accumulate_command) then None else Some []).
Proof.
  split; [reflexivity |].
  apply (ListBuckets_invariant (R := listbuckets_requires)
           accumulate_options (FunctionRef 2) accumulate_command).
  reflexivity.
Defined.

Lemma stream_callback_each_frame_witness :
  stream (options stream_command) = true ∧
  onSuccess_frames stream_command (frames_before_done ++ [done_frame]) [] =
    Ok (stream_command,
        [] ++ (frame_call stream_command <$> frames_before_done ++ [done_frame])).
Proof.
  split; [reflexivity |].
  apply (stream_callback_each_frame (R := listbuckets_requires)
           stream_command (frames_before_done ++ [done_frame]) []).
  reflexivity.
Defined.

Lemma accumulate_calls_witness :
  stream (options accumulate_command) = false ∧
  buckets accumulate_command = Some [] ∧
  onSuccess_frames accumulate_command
    (done_frame :: frames_before_done ++ [done_frame]) [] =
    Ok (set_buckets accumulate_command ["d"; "a"; "b"; "c"; "d"],
        [ {| callee := FunctionRef 2;
             arguments := [ANull; AResponse ["d"] (Some true)] |};
          {| callee := FunctionRef 2;
             arguments :=
               [ANull; AResponse ["d"; "a"; "b"; "c"; "d"] (Some true)] |} ]).
Proof.
  split; [reflexivity |].
  split; [reflexivity |].
  apply (accumulate_calls (R := listbuckets_requires) accumulate_command []
           (done_frame :: frames_before_done ++ [done_frame]) []).
  - reflexivity.
  - reflexivity.
Defined.

Lemma stream_accumulate_agree_witness :
  stream (options stream_command) = true ∧
  stream (options accumulate_command) = false ∧
  buckets accumulate_command = Some [] ∧
  ∃ s' a' slog acall,
    onSuccess_frames stream_command (frames_before_done ++ [done_frame]) []
      = Ok (s', slog) ∧
    onSuccess_frames accumulate_command (frames_before_done ++ [done_frame]) []
      = Ok (a', [acall]) ∧
    length slog = S (length frames_before_done) ∧
    concat (call_buckets <$> slog) = call_buckets acall ∧
    call_buckets acall = bucket_names (frames_before_done ++ [done_frame]).
Proof.
  split; [reflexivity |].
  split; [reflexivity |].
  split; [reflexivity |].
  apply (stream_accumulate_agree (R := listbuckets_requires)
           stream_command accumulate_command frames_before_done done_frame).
  - reflexivity.
  - reflexivity.
  - reflexivity.
  - repeat constructor.
  - reflexivity.
Defined.

End ListbucketsMore.
